(** * Firestore utility [random.cc]: [RandomDouble] and [CreateAutoId]

    A shallow embedding of [Firestore/src/cpp/util/random.cc].

    - [uint32_t] and [int] values are integers of [Z]; the one conversion
      to [uint32_t] the file performs is written out as a reduction
      modulo [2^32].
    - [double] is IEEE-754 binary64, given by the executable reference
      semantics of [SpecFloat] (round to nearest, ties to even).
    - [arc4random] and [arc4random_uniform] belong to the C library, not
      to this file.  They are the operations of an entropy source that
      threads an explicit state; what the library documents about them
      is the content of [Conforming].
    - [sizeof(kAutoIdAlphabet)] is the size of a pointer to [const char],
      fixed by the platform.
    - [kAutoIdAlphabet[rand_index]] reads the string literal's storage,
      terminating NUL included, and has no defined result past it. *)

From Stdlib Require Import ZArith Lia List Bool Ascii String QArith Qpower.
From Stdlib Require Import Floats.SpecFloat.
Import ListNotations.

Local Open Scope Z_scope.

(* ================================================================= *)
(** ** Machine integers *)

Module Uint32.

Definition modulus : Z := 2 ^ 32.

Definition max_value : Z := modulus - 1.

Definition in_range (z : Z) : Prop := 0 <= z < modulus.

(** [static_cast<uint32_t>(z)]. *)
Definition cast (z : Z) : Z := z mod modulus.

End Uint32.

(* ================================================================= *)
(** ** Doubles *)

Module Double.

Definition prec : Z := 53.
Definition emax : Z := 1024.

Definition t : Type := spec_float.

(** Conversion of an integer to [double]. *)
Definition of_Z (n : Z) : t := binary_normalize prec emax n 0 false.

(** The operator [/] on two doubles. *)
Definition div (x y : t) : t := SFdiv prec emax x y.

Definition zero : t := S754_zero false.
Definition one : t := SFone prec emax.

Definition ltb (x y : t) : bool := SFltb x y.
Definition leb (x y : t) : bool := SFleb x y.

Definition is_finite (x : t) : bool :=
  match x with
  | S754_zero _ | S754_finite _ _ _ => true
  | S754_infinity _ | S754_nan => false
  end.

(** The rational number a finite double stands for. *)
Definition to_Q (x : t) : option Q :=
  match x with
  | S754_zero _ => Some 0%Q
  | S754_finite s m e =>
      Some (inject_Z (cond_Zopp s (Zpos m)) * Qpower 2 e)%Q
  | S754_infinity _ | S754_nan => None
  end.

(** [x] is finite and stands for exactly [q]. *)
Definition represents (x : t) (q : Q) : Prop :=
  match to_Q x with
  | Some v => (v == q)%Q
  | None => False
  end.

End Double.

(* ================================================================= *)
(** ** The entropy source *)

(** The two C library calls the file makes.  Each consumes entropy:
    it maps the state of the source to a result and the next state. *)
Class EntropySource (Rng : Type) : Type := {
  arc4random : Rng -> Z * Rng;
  arc4random_uniform : Z -> Rng -> Z * Rng
}.

(** What the C library promises: [arc4random] returns a [uint32_t], and
    [arc4random_uniform(upper_bound)] returns a [uint32_t] less than
    [upper_bound]. *)
Class Conforming {Rng : Type} (E : EntropySource Rng) : Prop := {
  arc4random_range :
    forall s : Rng, Uint32.in_range (fst (arc4random s));
  arc4random_uniform_range :
    forall (upper_bound : Z) (s : Rng),
      0 < upper_bound <= Uint32.max_value ->
      0 <= fst (arc4random_uniform upper_bound s) < upper_bound
}.

(** A deterministic source for tests: it replays a tape of words, and
    yields zeros once the tape is used up. *)
Module Tape.

Definition state : Type := list Z.

Definition next (s : state) : Z * state :=
  match s with
  | [] => (0, [])
  | w :: s' => (Uint32.cast w, s')
  end.

Definition next_below (upper_bound : Z) (s : state) : Z * state :=
  let (r, s') := next s in
  (if upper_bound <? 2 then 0 else r mod upper_bound, s').

#[global] Instance source : EntropySource state := {
  arc4random := next;
  arc4random_uniform := next_below
}.

End Tape.

(* ================================================================= *)
(** ** The platform *)

(** The size in bytes of a pointer to [const char]. *)
Class Platform : Type := { sizeof_char_ptr : Z }.

Definition LP64 : Platform := {| sizeof_char_ptr := 8 |}.
Definition ILP32 : Platform := {| sizeof_char_ptr := 4 |}.

(* ================================================================= *)
(** ** Results of a run *)

Inductive outcome (A : Type) : Type :=
| Returned (a : A)   (* the function returned [a] *)
| Undefined          (* a read outside the storage of an array *)
| OutOfFuel.         (* the step budget of the model ran out *)

Arguments Returned {A} a.
Arguments Undefined {A}.
Arguments OutOfFuel {A}.

Definition outcome_map {A B : Type} (f : A -> B) (o : outcome A) : outcome B :=
  match o with
  | Returned a => Returned (f a)
  | Undefined => Undefined
  | OutOfFuel => OutOfFuel
  end.

(* ================================================================= *)
(** ** C strings and [std::string] *)

Module CString.

Definition NUL : ascii := Ascii.zero.

(** The bytes a string literal occupies: its characters, then NUL. *)
Definition storage (lit : string) : list ascii :=
  list_ascii_of_string lit ++ [NUL].

(** [lit[i]] for a pointer [lit] to a string literal. *)
Definition index (lit : string) (i : Z) : option ascii :=
  if i <? 0 then None else nth_error (storage lit) (Z.to_nat i).

End CString.

(** [str.append(1, c)]. *)
Definition append1 (str : string) (c : ascii) : string :=
  (str ++ String c EmptyString)%string.

(* ================================================================= *)
(** ** random.cc *)

Definition kArc4RandomMax : Double.t := Double.of_Z 0x100000000.

Definition kAutoIdLength : Z := 20.

Definition kAutoIdAlphabet : string :=
  "ABCDEFGHIJKLMNOPQRSTUVWXYZabcdefghijklmnopqrstuvwxyz0123456789".

Section Firestore.

Context {Rng : Type} {E : EntropySource Rng} {P : Platform}.

(** [kAutoIdAlphabet] is declared as a constant pointer to [const char]:
    [sizeof] gives the size of the pointer. *)
Definition sizeof_kAutoIdAlphabet : Z := sizeof_char_ptr.

Definition RandomDouble (s : Rng) : Double.t * Rng :=
  let (n, s') := arc4random s in
  (Double.div (Double.of_Z n) kArc4RandomMax, s').

(** The first statement of the loop body: the draw of [rand_index]. *)
Definition draw_rand_index (s : Rng) : Z * Rng :=
  arc4random_uniform (Uint32.cast sizeof_kAutoIdAlphabet) s.

(** The loop [for (int i = 0; i < kAutoIdLength; i++)], entered at its
    test with the current [i], [auto_id] and entropy state.  Every
    evaluation of the test costs one unit of fuel. *)
Fixpoint CreateAutoId_loop (fuel : nat) (i : Z) (auto_id : string) (s : Rng)
  : outcome (string * Rng) :=
  match fuel with
  | O => OutOfFuel
  | S fuel' =>
      if i <? kAutoIdLength then
        let (rand_index, s') := draw_rand_index s in
        match CString.index kAutoIdAlphabet rand_index with
        | Some c => CreateAutoId_loop fuel' (i + 1) (append1 auto_id c) s'
        | None => Undefined
        end
      else Returned (auto_id, s)
  end.

(** [auto_id.reserve(kAutoIdLength)] changes the capacity of the empty
    string only, which no caller can observe through its value. *)
Definition CreateAutoId (fuel : nat) (s : Rng) : outcome (string * Rng) :=
  CreateAutoId_loop fuel 0 EmptyString s.

(** The values [rand_index] takes in [n] successive passes through the
    loop body that start in state [s], and the state after them. *)
Fixpoint rand_indices (n : nat) (s : Rng) : list Z * Rng :=
  match n with
  | O => ([], s)
  | S n' =>
      let (rand_index, s') := draw_rand_index s in
      let (rest, s'') := rand_indices n' s' in
      (rand_index :: rest, s'')
  end.

End Firestore.

(** The string that a sequence of alphabet reads appends, read by read. *)
Fixpoint read_alphabet (auto_id : string) (indices : list Z) : outcome string :=
  match indices with
  | [] => Returned auto_id
  | rand_index :: rest =>
      match CString.index kAutoIdAlphabet rand_index with
      | Some c => read_alphabet (append1 auto_id c) rest
      | None => Undefined
      end
  end.

(** Character classes of the identifier alphabet. *)
Definition is_upper (c : ascii) : bool := (("A" <=? c) && (c <=? "Z"))%char.
Definition is_lower (c : ascii) : bool := (("a" <=? c) && (c <=? "z"))%char.
Definition is_digit (c : ascii) : bool := (("0" <=? c) && (c <=? "9"))%char.
Definition is_alnum (c : ascii) : bool := is_upper c || is_lower c || is_digit c.

(** All characters of [str] satisfy [p]. *)
Definition all_chars (p : ascii -> bool) (str : string) : bool :=
  forallb p (list_ascii_of_string str).

(** [c] occurs in [str]. *)
Definition occurs (c : ascii) (str : string) : bool :=
  existsb (Ascii.eqb c) (list_ascii_of_string str).

(** The alphabet read at every index below [bound] is defined and yields
    a character that satisfies [p]. *)
Definition reads_below (p : ascii -> bool) (bound : Z) : bool :=
  forallb
    (fun k : nat =>
       match CString.index kAutoIdAlphabet (Z.of_nat k) with
       | Some c => p c
       | None => false
       end)
    (seq 0 (Z.to_nat bound)).

(** The character at each place of the alphabet's storage: upper-case
    letters, lower-case letters, digits, then the terminator. *)
Definition alphabet_layout (i : Z) : option ascii :=
  if i <? 0 then None
  else if i <? 26 then Some (ascii_of_N (Z.to_N (65 + i)))
  else if i <? 52 then Some (ascii_of_N (Z.to_N (97 + (i - 26))))
  else if i <? 62 then Some (ascii_of_N (Z.to_N (48 + (i - 52))))
  else if i =? 62 then Some CString.NUL
  else None.

(** Test tapes. *)
Definition tape_of_61 : Tape.state := repeat 61 20.
Definition tape_low : Tape.state := [1; 2; 3; 4; 5; 6; 7; 0].
Definition tape_high : Tape.state := [9; 10; 11; 12; 13; 14; 15; 16].
Definition tape_past_storage : Tape.state := [1; 2; 63].

(** The first [n] characters of the alphabet. *)
Definition alphabet_prefix (n : Z) : string :=
  substring 0 (Z.to_nat n) kAutoIdAlphabet.

(** [c] is the character the alphabet holds at [rand_index]. *)
Definition selects (c : ascii) (rand_index : Z) : Prop :=
  CString.index kAutoIdAlphabet rand_index = Some c.

(** [rand_index] is outside the storage of the alphabet. *)
Definition outside_storage (rand_index : Z) : Prop :=
  rand_index < 0 \/ 63 <= rand_index.

(** The kinds of double: a positive normal number has a mantissa of
    full precision. *)
Definition is_positive_normal (x : Double.t) : bool :=
  match SFclassify Double.prec x with
  | FloatClass.PNormal => true
  | _ => false
  end.

(* ================================================================= *)
(** ** Facts about binary64 arithmetic *)

Module DoubleFacts.

Import Double.

Lemma digits2_pos_size (p : positive) : digits2_pos p = Pos.size p.
Proof. induction p; simpl; congruence. Qed.

Lemma digits2_pos_shift (k p : positive) :
  digits2_pos (Pos.iter xO p k) = (digits2_pos p + k)%positive.
Proof.
  induction k using Pos.peano_ind.
  - simpl. lia.
  - rewrite Pos.iter_succ. simpl. rewrite IHk. lia.
Qed.

Lemma Zpos_shift (k p : positive) :
  Zpos (Pos.iter xO p k) = Zpos p * 2 ^ Zpos k.
Proof.
  induction k using Pos.peano_ind.
  - simpl. lia.
  - rewrite Pos.iter_succ, Pos2Z.inj_succ, Z.pow_succ_r by lia.
    rewrite Pos2Z.inj_xO, IHk. lia.
Qed.

(** A positive number below [2^n] has at most [n] binary digits. *)
Lemma digits2_pos_bound (p : positive) (n : Z) :
  0 <= n -> Zpos p < 2 ^ n -> Zpos (digits2_pos p) <= n.
Proof.
  intros Hn Hp. rewrite digits2_pos_size.
  destruct (Z_le_gt_dec (Zpos (Pos.size p)) n) as [|Hgt]; [assumption|exfalso].
  pose proof (Pos.size_le p) as Hle.
  assert (Hpow : 2 ^ (n + 1) <= 2 ^ Zpos (Pos.size p))
    by (apply Z.pow_le_mono_r; lia).
  rewrite Z.pow_add_r in Hpow by lia.
  assert (Zpos (2 ^ Pos.size p) = 2 ^ Zpos (Pos.size p))
    by (rewrite Pos2Z.inj_pow; reflexivity).
  lia.
Qed.

(** Rounding leaves a mantissa of full precision as it is. *)
Lemma binary_round_aux_canonical (m : positive) (e : Z) :
  Zpos (digits2_pos m) = prec ->
  3 - emax - prec <= e <= emax - prec ->
  binary_round_aux prec emax false (Zpos m) e loc_Exact
  = S754_finite false m e.
Proof.
  intros Hd He. unfold binary_round_aux, shr_fexp, fexp, emin.
  cbn [Zdigits2 shr_record_of_loc].
  rewrite Hd. unfold prec, emax in *.
  replace (Z.max (53 + e - 53) (3 - 1024 - 53) - e) with 0 by lia.
  cbn [shr shr_m loc_of_shr_record round_nearest_even Zdigits2
       shr_record_of_loc].
  rewrite Hd.
  replace (Z.max (53 + e - 53) (3 - 1024 - 53) - e) with 0 by lia.
  cbn [shr shr_m].
  change (1024 - 53) with 971.
  destruct (Z.leb_spec e 971); [reflexivity|lia].
Qed.

(** Conversion of a positive integer of fewer than 53 bits: the
    mantissa is the integer shifted to full precision. *)
Lemma of_Z_pos (p : positive) :
  Zpos (digits2_pos p) < prec ->
  of_Z (Zpos p)
  = S754_finite false
      (Pos.iter xO p (Z.to_pos (prec - Zpos (digits2_pos p))))
      (Zpos (digits2_pos p) - prec).
Proof.
  intros Hd.
  unfold of_Z, binary_normalize, binary_round, shl_align, fexp, emin.
  unfold prec, emax in *.
  set (d := Zpos (digits2_pos p)) in *.
  replace (Z.max (d + 0 - 53) (3 - 1024 - 53) - 0) with (d - 53) by lia.
  replace (Z.max (d + 0 - 53) (3 - 1024 - 53)) with (d - 53) by lia.
  destruct (d - 53) as [|q|q] eqn:Eq; try lia.
  replace (Z.to_pos (53 - d)) with q by lia.
  apply binary_round_aux_canonical.
  - rewrite digits2_pos_shift. unfold prec. fold d. lia.
  - unfold prec, emax. lia.
Qed.

Lemma kArc4RandomMax_eq : kArc4RandomMax = S754_finite false (2 ^ 52) (-20).
Proof. reflexivity. Qed.

Lemma div_eucl_double (m : positive) :
  Z.div_eucl (Zpos m * 2 ^ 53) (2 ^ 52) = (Zpos (xO m), 0).
Proof.
  pose proof (Z.div_eucl_eq (Zpos m * 2 ^ 53) (2 ^ 52) ltac:(lia)) as Heq.
  pose proof (Z.mod_pos_bound (Zpos m * 2 ^ 53) (2 ^ 52) ltac:(lia)) as Hb.
  unfold Z.modulo in Hb.
  destruct (Z.div_eucl (Zpos m * 2 ^ 53) (2 ^ 52)) as [q r].
  assert (r = 0 /\ q = Zpos (xO m)) as [-> ->]; [|reflexivity].
  rewrite Pos2Z.inj_xO. change (2 ^ 53) with (2 * 2 ^ 52) in Heq. lia.
Qed.

(** Division of a normal double by [2^32] lowers the exponent by 32
    and keeps the mantissa, as long as the quotient is normal. *)
Lemma div_kArc4RandomMax (m : positive) (e : Z) :
  Zpos (digits2_pos m) = prec ->
  3 - emax - prec + 33 <= e <= emax - prec ->
  div (S754_finite false m e) kArc4RandomMax = S754_finite false m (e - 32).
Proof.
  intros Hd He. rewrite kArc4RandomMax_eq.
  unfold div, SFdiv, SFdiv_core_binary, fexp, emin.
  cbn [Zdigits2]. rewrite Hd.
  change (Zpos (digits2_pos (2 ^ 52))) with 53.
  unfold prec, emax in *.
  replace (Z.min (Z.max (53 + e - (53 + -20) - 53) (3 - 1024 - 53)) (e - -20))
    with (e - 33) by lia.
  replace (e - -20 - (e - 33)) with 53 by lia.
  cbv iota beta.
  rewrite Z.shiftl_mul_pow2 by lia.
  change (Z.pos (2 ^ 52)) with (2 ^ 52).
  rewrite div_eucl_double.
  change (new_location (2 ^ 52) 0) with loc_Exact.
  unfold binary_round_aux, shr_fexp, fexp, emin.
  cbn [Zdigits2 shr_record_of_loc digits2_pos xorb].
  rewrite Pos2Z.inj_succ, Hd.
  replace (Z.max (Z.succ 53 + (e - 33) - 53) (3 - 1024 - 53) - (e - 33))
    with 1 by lia.
  cbn [shr iter_pos shr_1 orb shr_m loc_of_shr_record round_nearest_even
       Zdigits2 shr_record_of_loc].
  rewrite Hd.
  replace (Z.max (53 + (e - 33 + 1) - 53) (3 - 1024 - 53) - (e - 33 + 1))
    with 0 by lia.
  cbn [shr shr_m].
  change (1024 - 53) with 971.
  replace (e - 33 + 1) with (e - 32) by lia.
  destruct (Z.leb_spec (e - 32) 971); [reflexivity|lia].
Qed.

(** The quotient [RandomDouble] computes from a non-zero word. *)
Lemma uint32_quotient (p : positive) :
  Zpos p < Uint32.modulus ->
  div (of_Z (Zpos p)) kArc4RandomMax
  = S754_finite false
      (Pos.iter xO p (Z.to_pos (prec - Zpos (digits2_pos p))))
      (Zpos (digits2_pos p) - prec - 32).
Proof.
  intros Hp.
  pose proof (digits2_pos_bound p 32 ltac:(lia) Hp) as Hd.
  unfold prec, emax in *.
  rewrite of_Z_pos by (unfold prec; lia).
  apply div_kArc4RandomMax.
  - rewrite digits2_pos_shift. unfold prec. lia.
  - unfold prec, emax. lia.
Qed.

Lemma Qpower_2_opp (j : Z) :
  0 <= j -> (Qpower 2 (- j) == / inject_Z (2 ^ j))%Q.
Proof.
  intros Hj. rewrite Qpower_opp.
  rewrite (Zpower_Qpower 2 j Hj). reflexivity.
Qed.

Lemma uint32_quotient_value (p : positive) :
  Zpos p < Uint32.modulus ->
  represents (div (of_Z (Zpos p)) kArc4RandomMax)
    (inject_Z (Zpos p) / inject_Z Uint32.modulus).
Proof.
  intros Hp.
  pose proof (digits2_pos_bound p 32 ltac:(lia) Hp) as Hd.
  rewrite (uint32_quotient p Hp).
  unfold represents, to_Q, cond_Zopp, prec in *.
  set (d := Zpos (digits2_pos p)) in *.
  assert (Hd1 : 1 <= d) by (unfold d; lia).
  rewrite Zpos_shift.
  replace (Zpos (Z.to_pos (53 - d))) with (53 - d) by lia.
  replace (d - 53 - 32) with (- (53 - d + 32)) by lia.
  rewrite Qpower_2_opp by lia.
  rewrite Z.pow_add_r by lia.
  rewrite !inject_Z_mult.
  unfold Uint32.modulus.
  assert (Hk : ~ (inject_Z (2 ^ (53 - d)) == 0)%Q).
  { intros H.
    assert (0 < 2 ^ (53 - d)) by (apply Z.pow_pos_nonneg; lia).
    unfold Qeq, inject_Z in H. cbn [Qnum Qden] in H. lia. }
  field. split; [discriminate|exact Hk].
Qed.

End DoubleFacts.

(* ================================================================= *)
(** ** Facts about strings and alphabet reads *)

Lemma list_ascii_of_append1 (str : string) (c : ascii) :
  list_ascii_of_string (append1 str c) = list_ascii_of_string str ++ [c].
Proof.
  unfold append1. induction str as [|a str IH]; simpl.
  - reflexivity.
  - now rewrite IH.
Qed.

Lemma length_append1 (str : string) (c : ascii) :
  String.length (append1 str c) = S (String.length str).
Proof.
  unfold append1. induction str as [|a str IH]; simpl.
  - reflexivity.
  - now rewrite IH.
Qed.

Lemma all_chars_append1 (p : ascii -> bool) (str : string) (c : ascii) :
  all_chars p (append1 str c) = all_chars p str && p c.
Proof.
  unfold all_chars. rewrite list_ascii_of_append1, forallb_app. simpl.
  now rewrite andb_true_r.
Qed.

Lemma reads_below_spec (p : ascii -> bool) (bound r : Z) :
  reads_below p bound = true ->
  0 <= r < bound ->
  exists c, CString.index kAutoIdAlphabet r = Some c /\ p c = true.
Proof.
  intros Hall Hr. unfold reads_below in Hall.
  rewrite forallb_forall in Hall.
  specialize (Hall (Z.to_nat r)).
  rewrite Z2Nat.id in Hall by lia.
  destruct (CString.index kAutoIdAlphabet r) as [c|].
  - exists c. split; [reflexivity|]. apply Hall, in_seq. lia.
  - discriminate Hall. apply in_seq. lia.
Qed.

(** Reads at indices below a bound under which every read is defined
    return a string that grew by one character per read. *)
Lemma read_alphabet_below (p : ascii -> bool) (bound : Z) :
  reads_below p bound = true ->
  forall (indices : list Z) (auto_id : string),
    Forall (fun r => 0 <= r < bound) indices ->
    all_chars p auto_id = true ->
    exists id,
      read_alphabet auto_id indices = Returned id /\
      String.length id = (String.length auto_id + List.length indices)%nat /\
      all_chars p id = true.
Proof.
  intros Hall indices.
  induction indices as [|r rest IH]; intros auto_id Hrange Hacc; simpl.
  - exists auto_id. repeat split; [lia|assumption].
  - inversion Hrange as [|? ? Hr Hrest]; subst.
    destruct (reads_below_spec p bound r Hall Hr) as (c & -> & Hc).
    destruct (IH (append1 auto_id c) Hrest) as (id & Hid & Hlen & Hp).
    { rewrite all_chars_append1, Hacc, Hc. reflexivity. }
    exists id. repeat split; try assumption.
    rewrite Hlen, length_append1. lia.
Qed.

Lemma reads_below_bound (p : ascii -> bool) (bound : Z) :
  reads_below p bound = true -> bound <= 63.
Proof.
  intros Hall.
  destruct (Z_le_gt_dec bound 63) as [|Hgt]; [assumption|exfalso].
  destruct (reads_below_spec p bound 63 Hall ltac:(lia)) as (c & Hc & _).
  discriminate Hc.
Qed.

Lemma reads_below_weaken (p : ascii -> bool) (bound bound' : Z) :
  bound' <= bound -> reads_below p bound = true -> reads_below p bound' = true.
Proof.
  intros Hle Hall. unfold reads_below in *.
  rewrite forallb_forall in *. intros k Hk. apply Hall.
  apply in_seq. apply in_seq in Hk. lia.
Qed.

(* ================================================================= *)
(** ** Facts about the test source *)

Lemma Tape_conforming : Conforming Tape.source.
Proof.
  split.
  - intros [|w s]; unfold Uint32.in_range, Uint32.modulus; simpl.
    + lia.
    + unfold Uint32.cast, Uint32.modulus. apply Z.mod_pos_bound. lia.
  - intros upper_bound s Hub. simpl. unfold Tape.next_below.
    destruct (Tape.next s) as [r s']. simpl.
    destruct (Z.ltb_spec upper_bound 2).
    + lia.
    + apply Z.mod_pos_bound. lia.
Qed.

(* ================================================================= *)
(** ** Facts about the loop of [CreateAutoId] *)

Section FirestoreFacts.

Context {Rng : Type} {E : EntropySource Rng} {P : Platform}.

Lemma rand_indices_length (n : nat) (s : Rng) :
  List.length (fst (rand_indices n s)) = n.
Proof.
  revert s. induction n as [|n IH]; intros s; simpl.
  - reflexivity.
  - destruct (draw_rand_index s) as [r s'].
    specialize (IH s'). destruct (rand_indices n s') as [rest s''].
    simpl in *. now rewrite IH.
Qed.

(** The bound the loop passes to [arc4random_uniform]. *)
Lemma cast_sizeof_kAutoIdAlphabet :
  0 < sizeof_char_ptr <= Uint32.max_value ->
  Uint32.cast sizeof_kAutoIdAlphabet = sizeof_char_ptr.
Proof.
  intros Hsz. unfold Uint32.cast, sizeof_kAutoIdAlphabet.
  unfold Uint32.max_value in Hsz. apply Z.mod_small. lia.
Qed.

Lemma draw_rand_index_range {C : Conforming E} (s : Rng) :
  0 < sizeof_char_ptr <= Uint32.max_value ->
  0 <= fst (draw_rand_index s) < sizeof_char_ptr.
Proof.
  intros Hsz. unfold draw_rand_index.
  rewrite (cast_sizeof_kAutoIdAlphabet Hsz).
  now apply arc4random_uniform_range.
Qed.

Lemma rand_indices_range {C : Conforming E} (n : nat) (s : Rng) :
  0 < sizeof_char_ptr <= Uint32.max_value ->
  Forall (fun r => 0 <= r < sizeof_char_ptr) (fst (rand_indices n s)).
Proof.
  intros Hsz. revert s. induction n as [|n IH]; intros s; simpl.
  - constructor.
  - pose proof (draw_rand_index_range s Hsz) as Hr.
    destruct (draw_rand_index s) as [r s'].
    specialize (IH s'). destruct (rand_indices n s') as [rest s''].
    simpl in *. now constructor.
Qed.

(** With fuel for every remaining test, the loop returns what the
    reads at the remaining values of [rand_index] build, and leaves the
    source in the state after those draws. *)
Lemma CreateAutoId_loop_reads (n fuel : nat) (i : Z) (auto_id : string) (s : Rng) :
  Z.to_nat (kAutoIdLength - i) = n ->
  (n < fuel)%nat ->
  CreateAutoId_loop fuel i auto_id s
  = outcome_map (fun id => (id, snd (rand_indices n s)))
      (read_alphabet auto_id (fst (rand_indices n s))).
Proof.
  revert fuel i auto_id s.
  induction n as [|n IH]; intros fuel i auto_id s Hn Hfuel;
    (destruct fuel as [|fuel]; [lia|]); simpl.
  - destruct (Z.ltb_spec i kAutoIdLength); [lia|reflexivity].
  - destruct (Z.ltb_spec i kAutoIdLength); [|lia].
    destruct (draw_rand_index s) as [r s'].
    assert (IH' := fun c => IH fuel (i + 1) (append1 auto_id c) s').
    destruct (rand_indices n s') as [rest s''].
    cbn [fst snd read_alphabet] in *.
    destruct (CString.index kAutoIdAlphabet r) as [c|]; [|reflexivity].
    apply IH'; lia.
Qed.

(** With fuel for fewer tests than the loop makes, the model runs out
    of fuel, as long as no read fails before. *)
Lemma CreateAutoId_loop_starved {C : Conforming E} (fuel : nat) (i : Z)
      (auto_id : string) (s : Rng) :
  0 < sizeof_char_ptr <= 62 ->
  i + Z.of_nat fuel <= kAutoIdLength ->
  CreateAutoId_loop fuel i auto_id s = OutOfFuel.
Proof.
  intros Hsz. revert i auto_id s.
  induction fuel as [|fuel IH]; intros i auto_id s Hi; simpl.
  - reflexivity.
  - destruct (Z.ltb_spec i kAutoIdLength); [|lia].
    assert (Hsz' : 0 < sizeof_char_ptr <= Uint32.max_value)
      by (unfold Uint32.max_value, Uint32.modulus; lia).
    pose proof (draw_rand_index_range s Hsz') as Hr.
    destruct (draw_rand_index s) as [r s']. simpl in Hr.
    destruct (reads_below_spec (fun _ => true) 62 r eq_refl ltac:(lia))
      as (c & -> & _).
    apply IH. lia.
Qed.

Lemma CreateAutoId_reads (fuel : nat) (s : Rng) :
  (20 < fuel)%nat ->
  CreateAutoId fuel s
  = outcome_map (fun id => (id, snd (rand_indices 20 s)))
      (read_alphabet EmptyString (fst (rand_indices 20 s))).
Proof.
  intros Hfuel. unfold CreateAutoId.
  now apply CreateAutoId_loop_reads.
Qed.

(** On a platform whose pointers take at most [bound] bytes, where
    every alphabet read below [bound] yields a character with [p]:
    [CreateAutoId] returns 20 characters with [p]. *)
Lemma CreateAutoId_returns {C : Conforming E} (p : ascii -> bool) (bound : Z)
      (fuel : nat) (s : Rng) :
  reads_below p bound = true ->
  0 < sizeof_char_ptr <= bound ->
  (20 < fuel)%nat ->
  exists id,
    CreateAutoId fuel s = Returned (id, snd (rand_indices 20 s)) /\
    read_alphabet EmptyString (fst (rand_indices 20 s)) = Returned id /\
    String.length id = 20%nat /\
    all_chars p id = true.
Proof.
  intros Hall Hsz Hfuel.
  assert (Hb : bound <= 63) by exact (reads_below_bound p bound Hall).
  assert (Hsz' : 0 < sizeof_char_ptr <= Uint32.max_value)
    by (unfold Uint32.max_value, Uint32.modulus; lia).
  pose proof (rand_indices_range 20 s Hsz') as Hrange.
  pose proof (rand_indices_length 20 s) as Hlen.
  destruct (read_alphabet_below p sizeof_char_ptr
              (reads_below_weaken p bound sizeof_char_ptr (proj2 Hsz) Hall)
              (fst (rand_indices 20 s)) EmptyString Hrange eq_refl)
    as (id & Hid & Hl & Hp).
  exists id. rewrite (CreateAutoId_reads fuel s Hfuel), Hid.
  repeat split; try assumption.
  rewrite Hl, Hlen. reflexivity.
Qed.

End FirestoreFacts.

(* ================================================================= *)
(** ** Facts about the quotient of [RandomDouble] *)

Section Quotient.

Import Double.

Variable n : Z.
Hypothesis n_range : Uint32.in_range n.

Let r : Double.t := div (of_Z n) kArc4RandomMax.

Lemma quotient_shape :
  (n = 0 /\ r = zero) \/
  (0 < n /\ exists m e, r = S754_finite false m e /\ e < -52).
Proof.
  unfold r. destruct n as [|p|p] eqn:En.
  - left. split; reflexivity.
  - right. split; [lia|].
    assert (Hp : Zpos p < Uint32.modulus) by (unfold Uint32.in_range in n_range; lia).
    pose proof (DoubleFacts.digits2_pos_bound p 32 ltac:(lia) Hp) as Hd.
    rewrite (DoubleFacts.uint32_quotient p Hp).
    eexists _, _. split; [reflexivity|]. unfold prec. lia.
  - unfold Uint32.in_range in n_range. lia.
Qed.

Lemma quotient_is_finite : is_finite r = true.
Proof.
  destruct quotient_shape as [[_ ->]|[_ (m & e & -> & _)]]; reflexivity.
Qed.

Lemma quotient_leb_zero : leb zero r = true.
Proof.
  destruct quotient_shape as [[_ ->]|[_ (m & e & -> & _)]]; reflexivity.
Qed.

Lemma quotient_ltb_one : ltb r one = true.
Proof.
  destruct quotient_shape as [[_ ->]|[_ (m & e & -> & He)]]; [reflexivity|].
  change one with (S754_finite false (2 ^ 52) (-52)).
  unfold ltb, SFltb, SFcompare.
  apply Z.compare_lt_iff in He. now rewrite He.
Qed.

Lemma quotient_represents :
  represents r (inject_Z n / inject_Z Uint32.modulus).
Proof.
  unfold r. destruct n as [|p|p] eqn:En.
  - unfold represents. simpl. reflexivity.
  - apply DoubleFacts.uint32_quotient_value.
    unfold Uint32.in_range in n_range. lia.
  - unfold Uint32.in_range in n_range. lia.
Qed.

Lemma quotient_value_bounds :
  exists q, to_Q r = Some q /\ (0 <= q)%Q /\ (q < 1)%Q.
Proof.
  pose proof quotient_represents as Hrep. unfold represents in Hrep.
  destruct (to_Q r) as [v|]; [|contradiction].
  exists v. split; [reflexivity|]. rewrite Hrep.
  unfold Uint32.in_range, Uint32.modulus in n_range.
  unfold Qle, Qlt, Uint32.modulus. cbn. lia.
Qed.

End Quotient.

(* ================================================================= *)
(** ** The claims about [RandomDouble] *)

Section RandomDoubleClaims.

Context {Rng : Type} {E : EntropySource Rng} {C : Conforming E}.

(** C5. For every state of a conforming entropy source, the double
    [RandomDouble] returns is at least [0.0] and less than [1.0], both
    in the order of IEEE-754 doubles and as the rational number it
    stands for: it is never negative and never reaches [1.0]. *)
Theorem RandomDouble_unit_interval (s : Rng) :
  Double.leb Double.zero (fst (RandomDouble s)) = true /\
  Double.ltb (fst (RandomDouble s)) Double.one = true /\
  exists q, Double.to_Q (fst (RandomDouble s)) = Some q /\ (0 <= q)%Q /\ (q < 1)%Q.
Proof.
  pose proof (arc4random_range s) as Hn.
  unfold RandomDouble. destruct (arc4random s) as [n s']. simpl in *.
  split; [|split].
  - now apply quotient_leb_zero.
  - now apply quotient_ltb_one.
  - now apply quotient_value_bounds.
Qed.

(** C6. For every state of a conforming entropy source, [RandomDouble]
    returns the double that stands for exactly [n / 2^32], where [n]
    is the 32-bit word [arc4random] draws in that state, and leaves the
    source in the state after that one draw.  The word [0] gives
    positive zero, and the word [2^32 - 1] gives a double less than
    [1.0]. *)
Theorem RandomDouble_exact (s : Rng) :
  Double.represents (fst (RandomDouble s))
    (inject_Z (fst (arc4random s)) / inject_Z Uint32.modulus) /\
  snd (RandomDouble s) = snd (arc4random s) /\
  (fst (arc4random s) = 0 -> fst (RandomDouble s) = Double.zero) /\
  (fst (arc4random s) = Uint32.max_value ->
   Double.ltb (fst (RandomDouble s)) Double.one = true).
Proof.
  pose proof (arc4random_range s) as Hn.
  unfold RandomDouble. destruct (arc4random s) as [n s']. simpl in *.
  repeat split.
  - now apply quotient_represents.
  - intros ->. reflexivity.
  - intros _. now apply quotient_ltb_one.
Qed.

End RandomDoubleClaims.

Lemma RandomDouble_unit_interval_witness :
  Double.leb Double.zero (fst (RandomDouble [4294967295])) = true /\
  Double.ltb (fst (RandomDouble [4294967295])) Double.one = true /\
  exists q, Double.to_Q (fst (RandomDouble [4294967295])) = Some q /\
            (0 <= q)%Q /\ (q < 1)%Q.
Proof.
  exact (RandomDouble_unit_interval (C := Tape_conforming) [4294967295]).
Defined.

Lemma RandomDouble_exact_witness :
  fst (RandomDouble [0]) = Double.zero /\
  Double.represents (fst (RandomDouble [5])) (5 # 4294967296) /\
  Double.ltb (fst (RandomDouble [4294967295])) Double.one = true.
Proof.
  split; [|split].
  - apply (RandomDouble_exact (C := Tape_conforming) [0]). reflexivity.
  - apply (RandomDouble_exact (C := Tape_conforming) [5]).
  - apply (RandomDouble_exact (C := Tape_conforming) [4294967295]). reflexivity.
Defined.

(* ================================================================= *)
(** ** The claims about [CreateAutoId] *)

Lemma pointer_fits_uint32 {P : Platform} (bound : Z) :
  0 < sizeof_char_ptr <= bound -> bound <= 63 ->
  0 < sizeof_char_ptr <= Uint32.max_value.
Proof. unfold Uint32.max_value, Uint32.modulus. lia. Qed.

Section CreateAutoIdClaims.

Context {Rng : Type} {E : EntropySource Rng} {C : Conforming E} {P : Platform}.

(** C1 (evaluation of the code).  On every platform whose pointers
    take fewer than 62 bytes, and for every state of a conforming
    entropy source, every value of [rand_index] is below the pointer
    size, and the alphabet's last character ['9'] (index 61) is absent
    from the identifier returned: the characters are not drawn from
    the whole alphabet of 62. *)
Theorem CreateAutoId_never_selects_last (fuel : nat) (s : Rng) :
  0 < sizeof_char_ptr < 62 ->
  (20 < fuel)%nat ->
  Uint32.cast sizeof_kAutoIdAlphabet = sizeof_char_ptr /\
  Forall (fun r => 0 <= r < sizeof_char_ptr) (fst (rand_indices 20 s)) /\
  exists id,
    CreateAutoId fuel s = Returned (id, snd (rand_indices 20 s)) /\
    occurs "9" id = false.
Proof.
  intros Hsz Hfuel.
  assert (Hsz' : 0 < sizeof_char_ptr <= Uint32.max_value)
    by (apply (pointer_fits_uint32 61); lia).
  split; [now apply cast_sizeof_kAutoIdAlphabet|].
  split; [now apply rand_indices_range|].
  assert (Hsz61 : 0 < sizeof_char_ptr <= 61) by lia.
  destruct (CreateAutoId_returns (fun c => negb (Ascii.eqb "9" c)) 61 fuel s
              eq_refl Hsz61 Hfuel) as (id & Hid & _ & _ & Hp).
  exists id. split; [assumption|].
  unfold occurs, all_chars in *.
  induction (list_ascii_of_string id) as [|c l IH]; simpl in *.
  - reflexivity.
  - apply andb_true_iff in Hp as [Hc Hl].
    apply negb_true_iff in Hc. rewrite Hc. now apply IH.
Qed.

(** C2. Where a pointer to [const char] takes 8 bytes, for every state
    of a conforming entropy source: the bound passed to
    [arc4random_uniform] is 8, every value of [rand_index] lies in
    [0, 8), and every character of the identifier returned, which is
    the result of the alphabet reads at those indices, is one of
    ['A'] to ['H']. *)
Theorem CreateAutoId_first_eight (fuel : nat) (s : Rng) :
  sizeof_char_ptr = 8 ->
  (20 < fuel)%nat ->
  Uint32.cast sizeof_kAutoIdAlphabet = 8 /\
  Forall (fun r => 0 <= r < 8) (fst (rand_indices 20 s)) /\
  exists id,
    CreateAutoId fuel s = Returned (id, snd (rand_indices 20 s)) /\
    read_alphabet EmptyString (fst (rand_indices 20 s)) = Returned id /\
    all_chars (fun c => occurs c "ABCDEFGH") id = true.
Proof.
  intros Hsz Hfuel.
  assert (Hsz' : 0 < sizeof_char_ptr <= Uint32.max_value)
    by (apply (pointer_fits_uint32 8); lia).
  split; [rewrite cast_sizeof_kAutoIdAlphabet; assumption|].
  split; [rewrite <- Hsz; now apply rand_indices_range|].
  assert (Hsz8 : 0 < sizeof_char_ptr <= 8) by lia.
  destruct (CreateAutoId_returns (fun c => occurs c "ABCDEFGH") 8 fuel s
              eq_refl Hsz8 Hfuel) as (id & Hid & Hread & _ & Hp).
  now exists id.
Qed.

(** C3. On every platform whose pointers take at most 62 bytes, for
    every state of a conforming entropy source, [CreateAutoId] returns
    an identifier whose characters all are letters [A-Z], [a-z] or
    digits [0-9], each of them a character of [kAutoIdAlphabet]. *)
Theorem CreateAutoId_alphanumeric (fuel : nat) (s : Rng) :
  0 < sizeof_char_ptr <= 62 ->
  (20 < fuel)%nat ->
  exists id s',
    CreateAutoId fuel s = Returned (id, s') /\
    all_chars is_alnum id = true /\
    all_chars (fun c => occurs c kAutoIdAlphabet) id = true.
Proof.
  intros Hsz Hfuel.
  destruct (CreateAutoId_returns
              (fun c => is_alnum c && occurs c kAutoIdAlphabet) 62 fuel s
              eq_refl Hsz Hfuel) as (id & Hid & _ & _ & Hp).
  exists id, (snd (rand_indices 20 s)). split; [assumption|].
  unfold all_chars in *. rewrite forallb_forall in Hp.
  split; apply forallb_forall; intros c Hc;
    specialize (Hp c Hc); apply andb_true_iff in Hp; tauto.
Qed.

(** C4. On every platform whose pointers take at most 62 bytes, for
    every state of a conforming entropy source, [CreateAutoId] returns
    a string of length exactly 20. *)
Theorem CreateAutoId_length (fuel : nat) (s : Rng) :
  0 < sizeof_char_ptr <= 62 ->
  (20 < fuel)%nat ->
  exists id s',
    CreateAutoId fuel s = Returned (id, s') /\
    String.length id = Z.to_nat kAutoIdLength.
Proof.
  intros Hsz Hfuel.
  destruct (CreateAutoId_returns (fun _ => true) 62 fuel s
              eq_refl Hsz Hfuel) as (id & Hid & _ & Hlen & _).
  now exists id, (snd (rand_indices 20 s)).
Qed.

(** C9. Both functions return, for every state of a conforming entropy
    source.  [RandomDouble] returns a finite double (no infinity and
    no NaN).  On a platform whose pointers take at most 62 bytes,
    [CreateAutoId] returns an identifier whenever the model is given
    fuel for more than 20 loop tests, and the identifier and the final
    state, which is the state after exactly 20 draws, do not depend on
    the fuel; with fuel for 20 tests only it is still in the loop: the
    body runs 20 times and the 21st test leaves the loop. *)
Theorem both_functions_total (s : Rng) :
  0 < sizeof_char_ptr <= 62 ->
  (exists r s', RandomDouble s = (r, s') /\ Double.is_finite r = true) /\
  CreateAutoId 20 s = OutOfFuel /\
  List.length (fst (rand_indices 20 s)) = 20%nat /\
  exists id,
    forall fuel, (20 < fuel)%nat ->
      CreateAutoId fuel s = Returned (id, snd (rand_indices 20 s)).
Proof.
  intros Hsz. repeat split.
  - pose proof (arc4random_range s) as Hn.
    unfold RandomDouble. destruct (arc4random s) as [n s']. simpl in Hn.
    eexists _, _. split; [reflexivity|]. now apply quotient_is_finite.
  - unfold CreateAutoId. apply CreateAutoId_loop_starved; [assumption|].
    unfold kAutoIdLength. lia.
  - apply rand_indices_length.
  - destruct (CreateAutoId_returns (fun _ => true) 62 21 s
                eq_refl Hsz (Nat.lt_succ_diag_r 20)) as (id & _ & Hread & _).
    exists id. intros fuel Hfuel.
    now rewrite (CreateAutoId_reads fuel s Hfuel), Hread.
Qed.

(** C10. On every platform whose pointers take at most 62 bytes, for
    every state of a conforming entropy source: every value of
    [rand_index] is below 62, so each read of the alphabet, whose
    storage has 63 bytes with NUL at index 62, is inside the storage
    and yields a character other than NUL; the identifier returned,
    the result of those reads, holds no NUL. *)
Theorem CreateAutoId_reads_in_bounds (fuel : nat) (s : Rng) :
  0 < sizeof_char_ptr <= 62 ->
  (20 < fuel)%nat ->
  List.length (CString.storage kAutoIdAlphabet) = 63%nat /\
  CString.index kAutoIdAlphabet 62 = Some CString.NUL /\
  Forall (fun r =>
            0 <= r < 62 /\
            exists c, CString.index kAutoIdAlphabet r = Some c /\
                      c <> CString.NUL)
         (fst (rand_indices 20 s)) /\
  exists id,
    CreateAutoId fuel s = Returned (id, snd (rand_indices 20 s)) /\
    read_alphabet EmptyString (fst (rand_indices 20 s)) = Returned id /\
    occurs CString.NUL id = false.
Proof.
  intros Hsz Hfuel.
  assert (Hsz' : 0 < sizeof_char_ptr <= Uint32.max_value)
    by (apply (pointer_fits_uint32 62); lia).
  split; [reflexivity|]. split; [reflexivity|]. split.
  - eapply Forall_impl; [|exact (rand_indices_range 20 s Hsz')].
    intros r Hr. cbv beta in Hr. split; [lia|].
    assert (Hr62 : 0 <= r < 62) by lia.
    destruct (reads_below_spec (fun c => negb (Ascii.eqb CString.NUL c)) 62 r
                eq_refl Hr62) as (c & Hc & Hne).
    exists c. split; [assumption|].
    intros ->. rewrite Ascii.eqb_refl in Hne. discriminate Hne.
  - destruct (CreateAutoId_returns
                (fun c => negb (Ascii.eqb CString.NUL c)) 62 fuel s
                eq_refl Hsz Hfuel) as (id & Hid & Hread & _ & Hp).
    exists id. repeat split; try assumption.
    unfold occurs, all_chars in *.
    induction (list_ascii_of_string id) as [|c l IH]; simpl in *.
    + reflexivity.
    + apply andb_true_iff in Hp as [Hc Hl].
      apply negb_true_iff in Hc. rewrite Hc. now apply IH.
Qed.

End CreateAutoIdClaims.

(** C8. The identifier is a function of the sequence of indices drawn:
    two runs on the same platform, from any two states of any two
    entropy sources (the first one conforming, pointers of at most 62
    bytes), in which [rand_index] takes the same 20 values in order,
    return the same string of 20 characters. *)
Theorem CreateAutoId_deterministic
    {Rng1 Rng2 : Type} {E1 : EntropySource Rng1} {E2 : EntropySource Rng2}
    {C1 : Conforming E1} {P : Platform}
    (fuel1 fuel2 : nat) (s1 : Rng1) (s2 : Rng2) :
  0 < sizeof_char_ptr <= 62 ->
  (20 < fuel1)%nat ->
  (20 < fuel2)%nat ->
  fst (rand_indices 20 s1) = fst (rand_indices 20 s2) ->
  exists id,
    outcome_map fst (CreateAutoId fuel1 s1) = Returned id /\
    outcome_map fst (CreateAutoId fuel2 s2) = Returned id /\
    String.length id = 20%nat.
Proof.
  intros Hsz Hfuel1 Hfuel2 Hsame.
  destruct (CreateAutoId_returns (fun _ => true) 62 fuel1 s1
              eq_refl Hsz Hfuel1) as (id & Hid & Hread & Hlen & _).
  exists id. repeat split.
  - now rewrite Hid.
  - rewrite (CreateAutoId_reads fuel2 s2 Hfuel2), <- Hsame, Hread.
    reflexivity.
  - assumption.
Qed.

(** C7. The constants of [CreateAutoId]: the length is 20; the alphabet
    is the string of the 62 alphanumeric characters, without repetition,
    in the order upper-case letters, lower-case letters, digits, so that
    the character read at each index is fixed (a known sequence of
    indices reads a known string). *)
Theorem auto_id_constants :
  kAutoIdLength = 20 /\
  kAutoIdAlphabet
  = "ABCDEFGHIJKLMNOPQRSTUVWXYZabcdefghijklmnopqrstuvwxyz0123456789"%string /\
  String.length kAutoIdAlphabet = 62%nat /\
  all_chars is_alnum kAutoIdAlphabet = true /\
  NoDup (list_ascii_of_string kAutoIdAlphabet) /\
  (forall i : Z, CString.index kAutoIdAlphabet i = alphabet_layout i) /\
  read_alphabet EmptyString [0; 25; 26; 51; 52; 61] = Returned "AZaz09"%string.
Proof.
  repeat split.
  - assert (Hnodup : nodup ascii_dec (list_ascii_of_string kAutoIdAlphabet)
                     = list_ascii_of_string kAutoIdAlphabet)
      by (vm_compute; reflexivity).
    rewrite <- Hnodup. apply NoDup_nodup.
  - intros i. destruct (Z.ltb_spec i 0) as [Hneg|Hnonneg].
    + unfold CString.index, alphabet_layout.
      destruct (Z.ltb_spec i 0); [reflexivity|lia].
    + destruct (Z_lt_le_dec i 63) as [Hlt|Hge].
      * assert (Hk : forall k : nat, (k < 63)%nat ->
                  CString.index kAutoIdAlphabet (Z.of_nat k)
                  = alphabet_layout (Z.of_nat k)).
        { intros k Hk. do 63 (destruct k as [|k]; [reflexivity|]). lia. }
        rewrite <- (Z2Nat.id i Hnonneg). apply Hk. lia.
      * unfold CString.index, alphabet_layout.
        destruct (Z.ltb_spec i 0); [lia|].
        destruct (Z.ltb_spec i 26); [lia|].
        destruct (Z.ltb_spec i 52); [lia|].
        destruct (Z.ltb_spec i 62); [lia|].
        destruct (Z.eqb_spec i 62); [lia|].
        apply nth_error_None.
        change (List.length (CString.storage kAutoIdAlphabet)) with 63%nat.
        lia.
Qed.

(* ================================================================= *)
(** ** Runs on the test source *)

(** On a 64-bit platform the words 61 select index [61 mod 8 = 5]. *)
Example CreateAutoId_tape_of_61 :
  CreateAutoId (P := LP64) 21 tape_of_61
  = Returned ("FFFFFFFFFFFFFFFFFFFF"%string, []).
Proof. reflexivity. Qed.

Example CreateAutoId_tape_low_LP64 :
  CreateAutoId (P := LP64) 21 tape_low
  = Returned ("BCDEFGHAAAAAAAAAAAAA"%string, []).
Proof. reflexivity. Qed.

Example CreateAutoId_tape_low_ILP32 :
  CreateAutoId (P := ILP32) 21 tape_low
  = Returned ("BCDABCDAAAAAAAAAAAAA"%string, []).
Proof. reflexivity. Qed.

Example rand_indices_tape_high :
  rand_indices (P := LP64) 20 tape_high
  = ([1; 2; 3; 4; 5; 6; 7; 0; 0; 0; 0; 0; 0; 0; 0; 0; 0; 0; 0; 0], []).
Proof. reflexivity. Qed.

(** Pointers of more than 62 bytes would let the loop read the
    terminator, and past it. *)
Example CreateAutoId_reads_terminator :
  outcome_map (fun r => occurs CString.NUL (fst r))
    (CreateAutoId (P := {| sizeof_char_ptr := 63 |}) 21 [1; 2; 62])
  = Returned true.
Proof. reflexivity. Qed.

Example CreateAutoId_reads_past_storage :
  CreateAutoId (P := {| sizeof_char_ptr := 64 |}) 21 [1; 2; 63] = Undefined.
Proof. reflexivity. Qed.

Example RandomDouble_of_5 :
  RandomDouble [5] = (S754_finite false 5629499534213120 (-82), []).
Proof. reflexivity. Qed.

Example RandomDouble_of_max :
  RandomDouble [4294967295] = (S754_finite false 9007199252643840 (-53), []).
Proof. reflexivity. Qed.

Example RandomDouble_of_max_value :
  Double.to_Q (fst (RandomDouble [4294967295]))
  = Some (inject_Z 9007199252643840 * Qpower 2 (-53))%Q.
Proof. reflexivity. Qed.

Lemma CreateAutoId_never_selects_last_witness :
  exists id,
    CreateAutoId (P := LP64) 21 tape_of_61 = Returned (id, []) /\
    occurs "9" id = false.
Proof.
  apply (CreateAutoId_never_selects_last (C := Tape_conforming) (P := LP64)
           21 tape_of_61); simpl; lia.
Defined.

Lemma CreateAutoId_first_eight_witness :
  exists id,
    CreateAutoId (P := LP64) 21 tape_of_61 = Returned (id, []) /\
    read_alphabet EmptyString (fst (rand_indices (P := LP64) 20 tape_of_61))
    = Returned id /\
    all_chars (fun c => occurs c "ABCDEFGH") id = true.
Proof.
  apply (CreateAutoId_first_eight (C := Tape_conforming) (P := LP64)
           21 tape_of_61); [reflexivity|lia].
Defined.

Lemma CreateAutoId_alphanumeric_witness :
  exists id s',
    CreateAutoId (P := ILP32) 21 tape_high = Returned (id, s') /\
    all_chars is_alnum id = true /\
    all_chars (fun c => occurs c kAutoIdAlphabet) id = true.
Proof.
  apply (CreateAutoId_alphanumeric (C := Tape_conforming) (P := ILP32)
           21 tape_high); simpl; lia.
Defined.

Lemma CreateAutoId_length_witness :
  exists id s',
    CreateAutoId (P := LP64) 30 tape_low = Returned (id, s') /\
    String.length id = 20%nat.
Proof.
  apply (CreateAutoId_length (C := Tape_conforming) (P := LP64) 30 tape_low);
    simpl; lia.
Defined.

Lemma CreateAutoId_deterministic_witness :
  exists id,
    outcome_map fst (CreateAutoId (P := LP64) 21 tape_low) = Returned id /\
    outcome_map fst (CreateAutoId (P := LP64) 40 tape_high) = Returned id /\
    String.length id = 20%nat.
Proof.
  apply (CreateAutoId_deterministic (C1 := Tape_conforming) (P := LP64)
           21 40 tape_low tape_high);
    [simpl; lia | lia | lia | reflexivity].
Defined.

Lemma both_functions_total_witness :
  (exists r s', RandomDouble tape_low = (r, s') /\ Double.is_finite r = true) /\
  CreateAutoId (P := LP64) 20 tape_low = OutOfFuel /\
  List.length (fst (rand_indices (P := LP64) 20 tape_low)) = 20%nat /\
  exists id,
    forall fuel, (20 < fuel)%nat ->
      CreateAutoId (P := LP64) fuel tape_low = Returned (id, []).
Proof.
  apply (both_functions_total (C := Tape_conforming) (P := LP64) tape_low).
  simpl; lia.
Defined.

Lemma CreateAutoId_reads_in_bounds_witness :
  exists id,
    CreateAutoId (P := LP64) 21 tape_high = Returned (id, []) /\
    read_alphabet EmptyString (fst (rand_indices (P := LP64) 20 tape_high))
    = Returned id /\
    occurs CString.NUL id = false.
Proof.
  apply (CreateAutoId_reads_in_bounds (C := Tape_conforming) (P := LP64)
           21 tape_high); simpl; lia.
Defined.

(* ================================================================= *)
(** ** Further facts about the quotient of [RandomDouble] *)

Section QuotientOrder.

Import Double.

(** The number of binary digits grows with the number. *)
Lemma digits2_pos_mono (p1 p2 : positive) :
  (p1 < p2)%positive -> Zpos (digits2_pos p1) <= Zpos (digits2_pos p2).
Proof.
  intros Hlt. rewrite !DoubleFacts.digits2_pos_size.
  destruct (Z_le_gt_dec (Zpos (Pos.size p1)) (Zpos (Pos.size p2)))
    as [|Hgt]; [assumption|exfalso].
  pose proof (Pos.size_le p1) as Hle.
  pose proof (Pos.size_gt p2) as Hgt2.
  assert (Hpow : 2 ^ (Zpos (Pos.size p2) + 1) <= 2 ^ Zpos (Pos.size p1))
    by (apply Z.pow_le_mono_r; lia).
  rewrite Z.pow_add_r in Hpow by lia.
  assert (H1 : Zpos (2 ^ Pos.size p1) = 2 ^ Zpos (Pos.size p1))
    by (rewrite Pos2Z.inj_pow; reflexivity).
  assert (H2 : Zpos (2 ^ Pos.size p2) = 2 ^ Zpos (Pos.size p2))
    by (rewrite Pos2Z.inj_pow; reflexivity).
  lia.
Qed.

Lemma quotient_lt (n1 n2 : Z) :
  Uint32.in_range n1 -> Uint32.in_range n2 -> n1 < n2 ->
  ltb (div (of_Z n1) kArc4RandomMax) (div (of_Z n2) kArc4RandomMax) = true.
Proof.
  unfold Uint32.in_range. intros H1 H2 Hlt.
  destruct n2 as [|p2|p2]; try lia.
  assert (Hp2 : Zpos p2 < Uint32.modulus) by lia.
  rewrite (DoubleFacts.uint32_quotient p2 Hp2).
  destruct n1 as [|p1|p1]; try lia.
  - reflexivity.
  - assert (Hp1 : Zpos p1 < Uint32.modulus) by lia.
    rewrite (DoubleFacts.uint32_quotient p1 Hp1).
    pose proof (digits2_pos_mono p1 p2 ltac:(lia)) as Hmono.
    pose proof (DoubleFacts.digits2_pos_bound p2 32 ltac:(lia) Hp2) as Hd2.
    unfold ltb, SFltb, SFcompare, prec in *.
    set (d1 := Zpos (digits2_pos p1)) in *.
    set (d2 := Zpos (digits2_pos p2)) in *.
    destruct (Z.compare_spec (d1 - 53 - 32) (d2 - 53 - 32)) as [Heq|Hl|Hg];
      [|reflexivity|lia].
    assert (Hd : d1 = d2) by lia. rewrite Hd.
    rewrite Pos.compare_cont_spec. cbn [Pos.switch_Eq].
    assert (Hm : Zpos (Pos.iter xO p1 (Z.to_pos (53 - d2)))
                 < Zpos (Pos.iter xO p2 (Z.to_pos (53 - d2)))).
    { rewrite !DoubleFacts.Zpos_shift.
      apply Z.mul_lt_mono_pos_r; [|lia].
      apply Z.pow_pos_nonneg; lia. }
    change (Pos.iter xO p1 (Z.to_pos (53 - d2))
            < Pos.iter xO p2 (Z.to_pos (53 - d2)))%positive in Hm.
    apply Pos.compare_lt_iff in Hm. now rewrite Hm.
Qed.

Lemma quotient_inj (n1 n2 : Z) :
  Uint32.in_range n1 -> Uint32.in_range n2 ->
  div (of_Z n1) kArc4RandomMax = div (of_Z n2) kArc4RandomMax ->
  n1 = n2.
Proof.
  intros H1 H2 Heq.
  pose proof (quotient_represents n1 H1) as R1.
  pose proof (quotient_represents n2 H2) as R2.
  cbv zeta in R1, R2. rewrite Heq in R1. unfold represents in *.
  destruct (to_Q (div (of_Z n2) kArc4RandomMax)) as [v|]; [|contradiction].
  rewrite R1 in R2. unfold Qeq, Uint32.modulus in R2. cbn in R2. lia.
Qed.

(** A quotient is positive zero or a positive normal number in
    canonical form. *)
Lemma quotient_class (n : Z) :
  Uint32.in_range n ->
  valid_binary prec emax (div (of_Z n) kArc4RandomMax) = true /\
  ((n = 0 /\ div (of_Z n) kArc4RandomMax = zero) \/
   (0 < n /\ is_positive_normal (div (of_Z n) kArc4RandomMax) = true)).
Proof.
  unfold Uint32.in_range. intros Hn. destruct n as [|p|p]; try lia.
  - split; [reflexivity|]. left. split; reflexivity.
  - assert (Hp : Zpos p < Uint32.modulus) by lia.
    pose proof (DoubleFacts.digits2_pos_bound p 32 ltac:(lia) Hp) as Hd.
    rewrite (DoubleFacts.uint32_quotient p Hp).
    assert (Hdig : Zpos (digits2_pos
                     (Pos.iter xO p (Z.to_pos (prec - Zpos (digits2_pos p)))))
                   = 53).
    { rewrite DoubleFacts.digits2_pos_shift. unfold prec. lia. }
    split.
    + unfold valid_binary, bounded, canonical_mantissa, fexp, emin.
      rewrite Hdig. unfold prec, emax.
      apply andb_true_iff. split.
      * apply Z.eqb_eq. lia.
      * apply Z.leb_le. lia.
    + right. split; [lia|].
      unfold is_positive_normal, SFclassify. rewrite Hdig. reflexivity.
Qed.

End QuotientOrder.

(** Comparison of doubles, read the other way round. *)
Lemma SFcompare_antisym (x y : spec_float) (c : comparison) :
  SFcompare x y = Some c -> SFcompare y x = Some (CompOpp c).
Proof.
  destruct x as [sx|sx| |sx mx ex], y as [sy|sy| |sy my ey];
    cbn [SFcompare]; try discriminate;
    try (destruct sx); try (destruct sy);
    intros Hc; injection Hc as <-; try reflexivity.
  - rewrite (Z.compare_antisym ex ey).
    destruct (ex ?= ey); cbn [CompOpp]; try reflexivity.
    rewrite (Pos.compare_cont_antisym mx my Eq). reflexivity.
  - rewrite (Z.compare_antisym ex ey).
    destruct (ex ?= ey); cbn [CompOpp]; try reflexivity.
    rewrite (Pos.compare_cont_antisym mx my Eq). reflexivity.
Qed.

Lemma SFltb_asym (x y : spec_float) :
  SFltb x y = true -> SFltb y x = false.
Proof.
  unfold SFltb. destruct (SFcompare x y) as [[]|] eqn:Hc; try discriminate.
  intros _. now rewrite (SFcompare_antisym x y Lt Hc).
Qed.

(* ================================================================= *)
(** ** Further properties of [RandomDouble] *)

Section RandomDoubleProperties.

Context {Rng : Type} {E : EntropySource Rng} {C : Conforming E}.

(** X1. [RandomDouble] loses none of the 32 bits it draws: in any two
    states of a conforming entropy source it returns the same double
    exactly when [arc4random] draws the same word. *)
Theorem RandomDouble_injective (s1 s2 : Rng) :
  fst (RandomDouble s1) = fst (RandomDouble s2) <->
  fst (arc4random s1) = fst (arc4random s2).
Proof.
  pose proof (arc4random_range s1) as H1.
  pose proof (arc4random_range s2) as H2.
  unfold RandomDouble.
  destruct (arc4random s1) as [n1 s1'], (arc4random s2) as [n2 s2'].
  cbn [fst] in *. split.
  - now apply quotient_inj.
  - now intros ->.
Qed.

(** X2. [RandomDouble] keeps the order of the words: in any two states
    of a conforming entropy source, the double returned in the first is
    less than the one returned in the second, in the order of IEEE-754
    doubles, exactly when the word drawn in the first is the smaller. *)
Theorem RandomDouble_monotone (s1 s2 : Rng) :
  Double.ltb (fst (RandomDouble s1)) (fst (RandomDouble s2)) = true <->
  fst (arc4random s1) < fst (arc4random s2).
Proof.
  pose proof (arc4random_range s1) as H1.
  pose proof (arc4random_range s2) as H2.
  unfold RandomDouble.
  destruct (arc4random s1) as [n1 s1'], (arc4random s2) as [n2 s2'].
  cbn [fst] in *. split.
  - intros Hlt.
    destruct (Z.lt_trichotomy n1 n2) as [Hn|[Hn|Hn]]; [assumption|exfalso..].
    + subst n2. unfold Double.ltb in Hlt.
      pose proof (SFltb_asym _ _ Hlt) as Hno. congruence.
    + pose proof (quotient_lt n2 n1 H2 H1 Hn) as Hgt.
      unfold Double.ltb in *.
      pose proof (SFltb_asym _ _ Hgt) as Hno. congruence.
  - now apply quotient_lt.
Qed.

(** X3. For every state of a conforming entropy source, the double
    [RandomDouble] returns is a canonical binary64 value, and it is
    positive zero when the word drawn is 0 and a positive normal number
    otherwise: never a NaN, an infinity, a negative number, negative
    zero or a subnormal number. *)
Theorem RandomDouble_class (s : Rng) :
  valid_binary Double.prec Double.emax (fst (RandomDouble s)) = true /\
  ((fst (arc4random s) = 0 /\ fst (RandomDouble s) = Double.zero) \/
   (0 < fst (arc4random s) /\
    is_positive_normal (fst (RandomDouble s)) = true)).
Proof.
  pose proof (arc4random_range s) as Hn.
  unfold RandomDouble. destruct (arc4random s) as [n s']. cbn [fst] in *.
  now apply quotient_class.
Qed.

End RandomDoubleProperties.

Lemma RandomDouble_injective_witness :
  fst (RandomDouble [5; 1]) = fst (RandomDouble [5; 2]) /\
  fst (RandomDouble [5]) <> fst (RandomDouble [6]).
Proof.
  split.
  - apply (RandomDouble_injective (C := Tape_conforming) [5; 1] [5; 2]).
    reflexivity.
  - intros Heq.
    apply (RandomDouble_injective (C := Tape_conforming) [5] [6]) in Heq.
    discriminate Heq.
Defined.

Lemma RandomDouble_monotone_witness :
  Double.ltb (fst (RandomDouble [5])) (fst (RandomDouble [4294967295])) = true.
Proof.
  apply (RandomDouble_monotone (C := Tape_conforming) [5] [4294967295]).
  reflexivity.
Defined.

Lemma RandomDouble_class_witness :
  valid_binary Double.prec Double.emax (fst (RandomDouble [4294967295])) = true /\
  is_positive_normal (fst (RandomDouble [1])) = true.
Proof.
  split.
  - apply (RandomDouble_class (C := Tape_conforming) [4294967295]).
  - destruct (RandomDouble_class (C := Tape_conforming) [1])
      as [_ [[H0 _]|[_ Hn]]]; [discriminate H0|exact Hn].
Defined.

(* ================================================================= *)
(** ** Further facts about alphabet reads *)

Lemma list_ascii_of_append (str1 str2 : string) :
  list_ascii_of_string (str1 ++ str2)
  = list_ascii_of_string str1 ++ list_ascii_of_string str2.
Proof.
  induction str1 as [|a str1 IH]; simpl.
  - reflexivity.
  - now rewrite IH.
Qed.

Lemma storage_NoDup : NoDup (CString.storage kAutoIdAlphabet).
Proof.
  assert (Hnodup : nodup ascii_dec (CString.storage kAutoIdAlphabet)
                   = CString.storage kAutoIdAlphabet)
    by (vm_compute; reflexivity).
  rewrite <- Hnodup. apply NoDup_nodup.
Qed.

(** A read fails exactly outside the 63 bytes of the storage. *)
Lemma index_None_iff (r : Z) :
  CString.index kAutoIdAlphabet r = None <-> outside_storage r.
Proof.
  unfold CString.index, outside_storage.
  destruct (Z.ltb_spec r 0) as [Hneg|Hnonneg].
  - split; [intros _; now left|reflexivity].
  - rewrite nth_error_None.
    change (List.length (CString.storage kAutoIdAlphabet)) with 63%nat.
    lia.
Qed.

(** No character stands at two places of the alphabet. *)
Lemma selects_inj (c : ascii) (r1 r2 : Z) :
  selects c r1 -> selects c r2 -> r1 = r2.
Proof.
  unfold selects, CString.index. intros H1 H2.
  destruct (Z.ltb_spec r1 0); [discriminate|].
  destruct (Z.ltb_spec r2 0); [discriminate|].
  assert (Hlt : (Z.to_nat r1 < List.length (CString.storage kAutoIdAlphabet))%nat)
    by (apply nth_error_Some; congruence).
  pose proof (proj1 (NoDup_nth_error _) storage_NoDup
                (Z.to_nat r1) (Z.to_nat r2) Hlt) as Hinj.
  rewrite H1, H2 in Hinj. specialize (Hinj eq_refl). lia.
Qed.

Lemma selects_all_inj (chars : list ascii) (indices1 indices2 : list Z) :
  Forall2 selects chars indices1 ->
  Forall2 selects chars indices2 ->
  indices1 = indices2.
Proof.
  intros H1. revert indices2.
  induction H1 as [|c r1 chars rest1 Hc _ IH]; intros indices2 H2;
    inversion H2 as [|? r2 ? rest2 Hc2 Hrest2]; subst.
  - reflexivity.
  - f_equal; [exact (selects_inj c r1 r2 Hc Hc2)|now apply IH].
Qed.

(** What [read_alphabet] returns holds, after the characters it started
    with, the character selected at each index, in order. *)
Lemma read_alphabet_selects (indices : list Z) (auto_id id : string) :
  read_alphabet auto_id indices = Returned id ->
  exists chars,
    list_ascii_of_string id = list_ascii_of_string auto_id ++ chars /\
    Forall2 selects chars indices.
Proof.
  revert auto_id.
  induction indices as [|r rest IH]; intros auto_id Hread; simpl in Hread.
  - injection Hread as <-. exists []. split; [now rewrite app_nil_r|constructor].
  - destruct (CString.index kAutoIdAlphabet r) as [c|] eqn:Hc; [|discriminate].
    destruct (IH _ Hread) as (chars & Hid & Hsel).
    exists (c :: chars). split.
    + rewrite Hid, list_ascii_of_append1, <- app_assoc. reflexivity.
    + now constructor.
Qed.

(** [read_alphabet] never runs out of fuel, and fails exactly when one
    of the indices is outside the storage. *)
Lemma read_alphabet_outcome (indices : list Z) (auto_id : string) :
  read_alphabet auto_id indices <> OutOfFuel /\
  (read_alphabet auto_id indices = Undefined <->
   Exists outside_storage indices).
Proof.
  revert auto_id.
  induction indices as [|r rest IH]; intros auto_id; simpl.
  - split; [discriminate|]. split; [discriminate|].
    intros H. inversion H.
  - destruct (CString.index kAutoIdAlphabet r) as [c|] eqn:Hc.
    + destruct (IH (append1 auto_id c)) as [Hfuel Hiff].
      split; [assumption|]. rewrite Hiff, Exists_cons.
      split; [now right|]. intros [Hout|Hrest]; [|assumption].
      apply index_None_iff in Hout. congruence.
    + split; [discriminate|]. split; [|reflexivity].
      intros _. apply Exists_cons. left. now apply index_None_iff.
Qed.

(** Every read below a pointer size of at most 62 yields one of the
    first characters of the alphabet, as many as the pointer has
    bytes. *)
Lemma reads_below_prefix (size : Z) :
  0 <= size <= 62 ->
  reads_below (fun c => occurs c (alphabet_prefix size)) size = true.
Proof.
  intros Hsize.
  assert (Hk : forall k : nat, (k <= 62)%nat ->
            reads_below (fun c => occurs c (alphabet_prefix (Z.of_nat k)))
              (Z.of_nat k) = true).
  { intros k Hk.
    do 63 (destruct k as [|k]; [vm_compute; reflexivity|]). lia. }
  rewrite <- (Z2Nat.id size) by lia. apply Hk. lia.
Qed.

(* ================================================================= *)
(** ** Further properties of [CreateAutoId] *)

Section CreateAutoIdProperties.

Context {Rng : Type} {E : EntropySource Rng} {P : Platform}.

(** Draws made one run after the other are the draws of one long run. *)
Lemma rand_indices_app (n m : nat) (s : Rng) :
  rand_indices (n + m) s
  = (fst (rand_indices n s) ++ fst (rand_indices m (snd (rand_indices n s))),
     snd (rand_indices m (snd (rand_indices n s)))).
Proof.
  revert s. induction n as [|n IH]; intros s; simpl.
  - now destruct (rand_indices m s).
  - destruct (draw_rand_index s) as [r s']. rewrite (IH s').
    destruct (rand_indices n s') as [rest s'']. reflexivity.
Qed.

(** X4. Whatever the entropy source and the pointer size, a run of
    [CreateAutoId] with fuel for more than 20 loop tests never runs out
    of fuel, and it reads outside the storage of the alphabet exactly
    when one of the 20 values of [rand_index] is negative or at least
    63, the size of the storage. *)
Theorem CreateAutoId_fault_iff (fuel : nat) (s : Rng) :
  (20 < fuel)%nat ->
  CreateAutoId fuel s <> OutOfFuel /\
  (CreateAutoId fuel s = Undefined <->
   Exists outside_storage (fst (rand_indices 20 s))).
Proof.
  intros Hfuel. rewrite (CreateAutoId_reads fuel s Hfuel).
  destruct (read_alphabet_outcome (fst (rand_indices 20 s)) EmptyString)
    as [Hnofuel Hiff].
  destruct (read_alphabet EmptyString (fst (rand_indices 20 s))) as [id| |];
    cbn [outcome_map] in *.
  - split; [discriminate|]. rewrite <- Hiff. split; discriminate.
  - split; [discriminate|]. rewrite <- Hiff. split; reflexivity.
  - now contradiction Hnofuel.
Qed.

Context {C : Conforming E}.

(** X5. On every platform whose pointers take at most 62 bytes, for
    every state of a conforming entropy source, every character of the
    identifier [CreateAutoId] returns is one of the first characters of
    the alphabet, as many as a pointer has bytes. *)
Theorem CreateAutoId_within_prefix (fuel : nat) (s : Rng) :
  0 < sizeof_char_ptr <= 62 ->
  (20 < fuel)%nat ->
  exists id,
    CreateAutoId fuel s = Returned (id, snd (rand_indices 20 s)) /\
    all_chars (fun c => occurs c (alphabet_prefix sizeof_char_ptr)) id = true.
Proof.
  intros Hsz Hfuel.
  assert (Hsz0 : 0 <= sizeof_char_ptr <= 62) by lia.
  pose proof (reads_below_prefix sizeof_char_ptr Hsz0) as Hprefix.
  assert (Hsz' : 0 < sizeof_char_ptr <= sizeof_char_ptr) by lia.
  destruct (CreateAutoId_returns _ sizeof_char_ptr fuel s Hprefix Hsz' Hfuel)
    as (id & Hid & _ & _ & Hp).
  now exists id.
Qed.

(** X6. On every platform whose pointers take at most 62 bytes, for
    every state of a conforming entropy source, the identifier
    [CreateAutoId] returns holds, at each of its 20 positions, the
    alphabet character at the value [rand_index] took in the pass of
    that number: each character comes from one draw alone. *)
Theorem CreateAutoId_positions (fuel : nat) (s : Rng) :
  0 < sizeof_char_ptr <= 62 ->
  (20 < fuel)%nat ->
  exists id,
    CreateAutoId fuel s = Returned (id, snd (rand_indices 20 s)) /\
    Forall2 selects (list_ascii_of_string id) (fst (rand_indices 20 s)).
Proof.
  intros Hsz Hfuel.
  destruct (CreateAutoId_returns (fun _ => true) 62 fuel s eq_refl Hsz Hfuel)
    as (id & Hid & Hread & _ & _).
  exists id. split; [assumption|].
  destruct (read_alphabet_selects _ _ _ Hread) as (chars & Hchars & Hsel).
  now rewrite Hchars.
Qed.

(** X7. On every platform whose pointers take at most 62 bytes, two
    calls of [CreateAutoId] one after the other, from any state of a
    conforming entropy source, both return; the second uses the draws
    21 to 40 of the source, none of the first call's, and the two
    identifiers joined hold the characters selected by the 40 draws in
    order. *)
Theorem CreateAutoId_twice (fuel1 fuel2 : nat) (s : Rng) :
  0 < sizeof_char_ptr <= 62 ->
  (20 < fuel1)%nat ->
  (20 < fuel2)%nat ->
  exists id1 id2 s1,
    CreateAutoId fuel1 s = Returned (id1, s1) /\
    CreateAutoId fuel2 s1 = Returned (id2, snd (rand_indices 40 s)) /\
    fst (rand_indices 40 s)
    = fst (rand_indices 20 s) ++ fst (rand_indices 20 s1) /\
    Forall2 selects (list_ascii_of_string (id1 ++ id2))
                    (fst (rand_indices 40 s)).
Proof.
  intros Hsz Hfuel1 Hfuel2.
  destruct (CreateAutoId_returns (fun _ => true) 62 fuel1 s eq_refl Hsz Hfuel1)
    as (id1 & Hid1 & Hread1 & _ & _).
  destruct (read_alphabet_selects _ _ _ Hread1) as (chars1 & Hc1 & Hsel1).
  set (s1 := snd (rand_indices 20 s)) in *.
  destruct (CreateAutoId_returns (fun _ => true) 62 fuel2 s1 eq_refl Hsz Hfuel2)
    as (id2 & Hid2 & Hread2 & _ & _).
  destruct (read_alphabet_selects _ _ _ Hread2) as (chars2 & Hc2 & Hsel2).
  cbn [list_ascii_of_string app] in Hc1, Hc2.
  rewrite <- Hc1 in Hsel1. rewrite <- Hc2 in Hsel2.
  pose proof (rand_indices_app 20 20 s) as Happ.
  change (20 + 20)%nat with 40%nat in Happ. fold s1 in Happ.
  exists id1, id2, s1. rewrite Happ. cbn [fst snd].
  repeat split; try assumption.
  rewrite list_ascii_of_append. now apply Forall2_app.
Qed.

End CreateAutoIdProperties.

(** X8. Two runs of [CreateAutoId] on the same platform that return the
    same identifier drew the same 20 values of [rand_index], whatever
    the entropy sources and their states: identifiers collide only when
    the draws do. *)
Theorem CreateAutoId_same_id_same_draws
    {Rng1 Rng2 : Type} {E1 : EntropySource Rng1} {E2 : EntropySource Rng2}
    {P : Platform}
    (fuel1 fuel2 : nat) (s1 s1' : Rng1) (s2 s2' : Rng2) (id : string) :
  (20 < fuel1)%nat ->
  (20 < fuel2)%nat ->
  CreateAutoId fuel1 s1 = Returned (id, s1') ->
  CreateAutoId fuel2 s2 = Returned (id, s2') ->
  fst (rand_indices 20 s1) = fst (rand_indices 20 s2).
Proof.
  intros Hfuel1 Hfuel2 Hid1 Hid2.
  rewrite (CreateAutoId_reads fuel1 s1 Hfuel1) in Hid1.
  rewrite (CreateAutoId_reads fuel2 s2 Hfuel2) in Hid2.
  destruct (read_alphabet EmptyString (fst (rand_indices 20 s1)))
    as [id1| |] eqn:Hread1; try discriminate.
  destruct (read_alphabet EmptyString (fst (rand_indices 20 s2)))
    as [id2| |] eqn:Hread2; try discriminate.
  cbn [outcome_map] in *.
  injection Hid1 as -> _. injection Hid2 as -> _.
  destruct (read_alphabet_selects _ _ _ Hread1) as (chars1 & Hc1 & Hsel1).
  destruct (read_alphabet_selects _ _ _ Hread2) as (chars2 & Hc2 & Hsel2).
  cbn [list_ascii_of_string app] in Hc1, Hc2.
  rewrite <- Hc1 in Hsel1. rewrite <- Hc2 in Hsel2.
  exact (selects_all_inj _ _ _ Hsel1 Hsel2).
Qed.

Lemma CreateAutoId_fault_iff_witness :
  CreateAutoId (P := {| sizeof_char_ptr := 64 |}) 21 tape_past_storage
  = Undefined /\
  CreateAutoId (P := LP64) 21 tape_past_storage <> Undefined.
Proof.
  split.
  - apply (CreateAutoId_fault_iff (P := {| sizeof_char_ptr := 64 |})
             21 tape_past_storage); [lia|].
    apply Exists_cons. right. apply Exists_cons. right.
    apply Exists_cons. left. right. cbv. discriminate.
  - intros Hfault.
    apply (CreateAutoId_fault_iff (P := LP64) 21 tape_past_storage) in Hfault;
      [|lia].
    apply Exists_exists in Hfault as (r & Hin & Hout).
    vm_compute in Hin. unfold outside_storage in Hout. intuition lia.
Defined.

Lemma CreateAutoId_within_prefix_witness :
  exists id,
    CreateAutoId (P := ILP32) 21 tape_high = Returned (id, []) /\
    all_chars (fun c => occurs c "ABCD") id = true.
Proof.
  apply (CreateAutoId_within_prefix (C := Tape_conforming) (P := ILP32)
           21 tape_high); simpl; lia.
Defined.

Lemma CreateAutoId_positions_witness :
  exists id,
    CreateAutoId (P := LP64) 21 tape_low = Returned (id, []) /\
    Forall2 selects (list_ascii_of_string id)
      [1; 2; 3; 4; 5; 6; 7; 0; 0; 0; 0; 0; 0; 0; 0; 0; 0; 0; 0; 0].
Proof.
  apply (CreateAutoId_positions (C := Tape_conforming) (P := LP64)
           21 tape_low); simpl; lia.
Defined.

Lemma CreateAutoId_twice_witness :
  exists id1 id2 s1,
    CreateAutoId (P := LP64) 21 (tape_of_61 ++ tape_low) = Returned (id1, s1) /\
    CreateAutoId (P := LP64) 30 s1 = Returned (id2, []) /\
    fst (rand_indices (P := LP64) 40 (tape_of_61 ++ tape_low))
    = fst (rand_indices (P := LP64) 20 (tape_of_61 ++ tape_low))
      ++ fst (rand_indices (P := LP64) 20 s1) /\
    Forall2 selects (list_ascii_of_string (id1 ++ id2))
      (fst (rand_indices (P := LP64) 40 (tape_of_61 ++ tape_low))).
Proof.
  apply (CreateAutoId_twice (C := Tape_conforming) (P := LP64)
           21 30 (tape_of_61 ++ tape_low)); simpl; lia.
Defined.

Lemma CreateAutoId_same_id_same_draws_witness :
  fst (rand_indices (P := LP64) 20 tape_low)
  = fst (rand_indices (P := LP64) 20 tape_high).
Proof.
  apply (CreateAutoId_same_id_same_draws (P := LP64) 21 40
           tape_low [] tape_high [] "BCDEFGHAAAAAAAAAAAAA");
    [lia | lia | reflexivity | reflexivity].
Defined.
